(** * DiscordAdminHelper viewer: a shallow embedding of [viewer/script.js]

    The viewer is a single script that queries a message-archive backend and
    patches the page.  This development embeds the parts of it that carry
    logic: the string helpers ([escapeHtml], [getFlagIcon]), the message
    renderer, the flag mutation that patches rendered nodes in place, the
    reaction modal and the word-frequency chart.

    Conventions.
    - A JavaScript string is a [string]: the bytes of its UTF-8 encoding.
      Every character the script searches for, splits on or replaces is ASCII,
      and an ASCII byte occurs in UTF-8 text only as that character, so these
      operations act on the bytes exactly as they act on the code units.
    - The network is an input: every function that awaits [fetch] takes the
      outcome of that request as an argument.
    - The page is explicit state: the message nodes, the modal, the console
      and the requests issued so far. *)

From Stdlib Require Import String Ascii List ZArith Bool Lia Floats DecimalString.
Import ListNotations.
Open Scope string_scope.

(** ** JavaScript string primitives used by the script *)

Module JsString.

(** [s.split(sep)] for a one-character separator: the segments between the
    separators, the empty string giving one empty segment. *)
Fixpoint split (sep : ascii) (s : string) : list string :=
  match s with
  | EmptyString => [EmptyString]
  | String a rest =>
      if Ascii.eqb a sep then EmptyString :: split sep rest
      else match split sep rest with
           | seg :: segs => String a seg :: segs
           | [] => [String a EmptyString]
           end
  end.

(** [s.startsWith(p)]. *)
Fixpoint startsWith (s p : string) {struct p} : bool :=
  match p with
  | EmptyString => true
  | String b p' =>
      match s with
      | EmptyString => false
      | String a s' => Ascii.eqb a b && startsWith s' p'
      end
  end.

(** [s.replace(/c/g, by)] for a one-character pattern [c] and a replacement
    text without [$] patterns. *)
Fixpoint replaceAll (c : ascii) (by_ : string) (s : string) : string :=
  match s with
  | EmptyString => EmptyString
  | String a rest =>
      if Ascii.eqb a c then by_ ++ replaceAll c by_ rest
      else String a (replaceAll c by_ rest)
  end.

(** Truthiness of a string value: every string but the empty one. *)
Definition truthy (s : string) : bool := negb (s =? "").

(** Membership of a character in a string. *)
Fixpoint contains (c : ascii) (s : string) : bool :=
  match s with
  | EmptyString => false
  | String a rest => Ascii.eqb a c || contains c rest
  end.

(** The array index [parts[i]] interpolated in a template literal: a missing
    element is [undefined] and prints as such. *)
Definition interpolate_nth (parts : list string) (i : nat) : string :=
  match nth_error parts i with
  | Some seg => seg
  | None => "undefined"
  end.

End JsString.

(** ** Formatting utilities *)

Module Escape.
Import JsString.

Definition amp : ascii := "&"%char.
Definition lt : ascii := "<"%char.
Definition gt : ascii := ">"%char.
Definition quot : ascii := "034"%char.
Definition apos : ascii := "'"%char.

(** [escapeHtml]: five global replacements, one after the other. *)
Definition escapeHtml (unsafe : string) : string :=
  replaceAll apos "&#039;"
    (replaceAll quot "&quot;"
       (replaceAll gt "&gt;"
          (replaceAll lt "&lt;"
             (replaceAll amp "&amp;" unsafe)))).

(** The specification's reading of the same function: one pass that maps
    each character to its entity, or to itself. *)
Definition entity_of (a : ascii) : string :=
  if Ascii.eqb a amp then "&amp;"
  else if Ascii.eqb a lt then "&lt;"
  else if Ascii.eqb a gt then "&gt;"
  else if Ascii.eqb a quot then "&quot;"
  else if Ascii.eqb a apos then "&#039;"
  else String a EmptyString.

Fixpoint escape_single_pass (s : string) : string :=
  match s with
  | EmptyString => EmptyString
  | String a rest => entity_of a ++ escape_single_pass rest
  end.

(** The five character references the page produces. *)
Definition entities : list (string * ascii) :=
  [("&amp;", amp); ("&lt;", lt); ("&gt;", gt); ("&quot;", quot);
   ("&#039;", apos)].

(** The reference that starts at the head of [s], with its length. *)
Fixpoint reference_at (table : list (string * ascii)) (s : string)
  : option (ascii * nat) :=
  match table with
  | [] => None
  | (name, c) :: table' =>
      if startsWith s name then Some (c, String.length name)
      else reference_at table' s
  end.

(** The text a browser shows for markup that holds no tag: character
    references are replaced by their characters, anything else is kept.
    [skip] counts the characters of a reference still to be consumed. *)
Fixpoint text_of (skip : nat) (markup : string) : string :=
  match markup with
  | EmptyString => EmptyString
  | String a rest =>
      match skip with
      | S k => text_of k rest
      | O =>
          match reference_at entities markup with
          | Some (c, n) => String c (text_of (Nat.pred n) rest)
          | None => String a (text_of O rest)
          end
      end
  end.

Definition textContent (markup : string) : string := text_of O markup.

(** An occurrence of [&] at the head of [s] is escaped when it starts one of
    the five references. *)
Definition starts_reference (s : string) : bool :=
  match reference_at entities s with Some _ => true | None => false end.

(** A scan of the markup: no raw [<], [>], quote or apostrophe, and every
    [&] starts one of the five references. *)
Fixpoint no_raw_special (markup : string) : bool :=
  match markup with
  | EmptyString => true
  | String a rest =>
      (if Ascii.eqb a amp then starts_reference markup
       else negb (Ascii.eqb a lt || Ascii.eqb a gt
                  || Ascii.eqb a quot || Ascii.eqb a apos))
      && no_raw_special rest
  end.

End Escape.

(** ** Flag-state codec *)

Module Codec.
Import JsString.

Definition colon : ascii := ":"%char.
Definition dq : string := String Escape.quot EmptyString.

(** The local [emoji] of [getFlagIcon]: bound when the flag is truthy and
    starts with the pending-reaction prefix, to element 1 of the flag split
    on colons. *)
Definition pending_react_emoji (flag : string) : option string :=
  if truthy flag && startsWith flag "pending_react:"
  then Some (interpolate_nth (split colon flag) 1)
  else None.

(** [getFlagIcon(flag)]; [None] is a flag that is [null] or [undefined]. *)
Definition getFlagIcon (flag : option string) : string :=
  match flag with
  | None => "⚪"
  | Some f =>
      if f =? "green" then "🟢"
      else if f =? "red" then "🔴"
      else match pending_react_emoji f with
           | Some emoji =>
               "<span title=" ++ dq ++ "Pending reaction: " ++ emoji ++ dq
               ++ ">⏳" ++ emoji ++ "</span>"
           | None => "⚪"
           end
  end.

(** The class [toggleFlag] adds for a flag value other than [none]:
    [`flag-${color.split(':')[0]}`]. *)
Definition flag_class_token (color : string) : string :=
  "flag-" ++ interpolate_nth (split colon color) 0.


End Codec.

(** ** The page: message nodes and their class lists *)

Module Dom.
Import JsString.

Inductive exn : Type :=
| SyntaxError
| InvalidCharacterError
| TypeError (message : string).

Inductive result (A : Type) : Type :=
| Ok (a : A)
| Throw (e : exn).
Arguments Ok {A} a.
Arguments Throw {A} e.

(** A rendered message node: its [id] attribute, its class list in order,
    and the markup of its first [.flag-indicator] descendant, if any. *)
Record element : Type := mkElement {
  el_id : string;
  classList : list string;
  flag_indicator : option string
}.

Definition ascii_whitespace : list ascii :=
  ["009"%char; "010"%char; "012"%char; "013"%char; " "%char].

Definition has_whitespace (token : string) : bool :=
  existsb (fun w => contains w token) ascii_whitespace.

Definition mem (token : string) (tokens : list string) : bool :=
  existsb (String.eqb token) tokens.

(** [classList.remove(...tokens)] for well-formed tokens. *)
Definition classList_remove (tokens : list string) (cl : list string)
  : list string :=
  filter (fun c => negb (mem c tokens)) cl.

(** [classList.add(token)]: an empty token and a token with ASCII white
    space are refused; a token already present is not added again. *)
Definition classList_add (token : string) (cl : list string)
  : result (list string) :=
  if token =? "" then Throw SyntaxError
  else if has_whitespace token then Throw InvalidCharacterError
  else if mem token cl then Ok cl
  else Ok (cl ++ [token])%list.

(** The class list a [class] attribute parses to: its white-space separated
    tokens, each once, in order of first occurrence. *)
Fixpoint tokens_of (current : string) (attr : string) : list string :=
  match attr with
  | EmptyString => if current =? "" then [] else [current]
  | String a rest =>
      if existsb (Ascii.eqb a) ascii_whitespace
      then ((if current =? "" then [] else [current]) ++ tokens_of "" rest)%list
      else tokens_of (current ++ String a EmptyString) rest
  end.

Fixpoint dedupe (seen : list string) (tokens : list string) : list string :=
  match tokens with
  | [] => []
  | t :: rest =>
      if mem t seen then dedupe seen rest else t :: dedupe (t :: seen) rest
  end.

Definition classList_of_attr (attr : string) : list string :=
  dedupe [] (tokens_of "" attr).

End Dom.

(** ** Message renderer *)

Module Renderer.
Import JsString Escape Codec Dom.

Record message : Type := mkMessage {
  msg_id : string;
  author_name : string;
  content : string;
  timestamp : string;
  attachment_urls : list string;
  flag : option string
}.

(** [msg.flag === v]. *)
Definition flag_is (f : option string) (v : string) : bool :=
  match f with
  | Some s => s =? v
  | None => false
  end.

(** The parts of the markup [renderMessage] returns that depend on the
    message: the attributes of the outer element, the escaped author and
    content, the flag indicator and the attachment sources.  The date text
    is the browser's locale formatting and is left out. *)
Record markup : Type := mkMarkup {
  class_attr : string;
  id_attr : string;
  author_html : string;
  indicator_html : string;
  content_html : string;
  attachment_srcs : list string
}.

Definition renderMessage (msg : message) (isTarget : bool) : markup :=
  let flagClass :=
    if flag_is (flag msg) "green" then "flag-green"
    else if flag_is (flag msg) "red" then "flag-red"
    else "" in
  {| class_attr :=
       "message-item " ++ (if isTarget then "target-message" else "")
       ++ " " ++ flagClass;
     id_attr := "msg-" ++ msg_id msg;
     author_html := escapeHtml (author_name msg);
     indicator_html := getFlagIcon (flag msg);
     content_html := escapeHtml (content msg);
     attachment_srcs := attachment_urls msg |}.

(** The node the browser builds from that markup. *)
Definition element_of (m : markup) : element :=
  {| el_id := id_attr m;
     classList := classList_of_attr (class_attr m);
     flag_indicator := Some (indicator_html m) |}.

End Renderer.

(** ** View controller: flag mutation and the reaction modal *)

Module Controller.
Import JsString Codec Dom Renderer.

(** Requests the controller issues. *)
Inductive request : Type :=
| PutFlag (messageId flagValue : string)
| GetReactions (messageId : string).

(** What [await fetch(...)] gives: a rejection, or a response with its [ok]
    bit and its decoded body. *)
Inductive fetch_outcome (P : Type) : Type :=
| Rejected (reason : string)
| Responded (ok : bool) (payload : P).
Arguments Rejected {P} reason.
Arguments Responded {P} ok payload.

(** How an [async] function settles. *)
Inductive completion : Type :=
| Fulfilled
| RejectedWith (e : exn).

Record reaction : Type := mkReaction {
  emoji_str : string;
  r_id : option string;
  r_name : string;
  r_count : Z
}.

(** The body of the reactions response once decoded: an error object, a list
    of reactions, or a body that does not decode. *)
Inductive reactions_payload : Type :=
| ReactionsError (error : string)
| ReactionsList (reactions : list reaction)
| NotJson.

(** What the modal's list shows. *)
Inductive list_content : Type :=
| Placeholder (text : string)
| ErrorPlaceholder (text : string)
| Chips (reactions : list reaction).

Record page : Type := mkPage {
  dom : list element;
  modal_display : string;
  emoji_list : list_content;
  modal_subtitle : string;
  currentMessageIdForReact : option string;
  console : list (string * exn);
  requests : list request
}.

Definition with_dom (nodes : list element) (p : page) : page :=
  mkPage nodes (modal_display p) (emoji_list p) (modal_subtitle p)
         (currentMessageIdForReact p) (console p) (requests p).

Definition with_modal (display : string) (current : option string)
           (p : page) : page :=
  mkPage (dom p) display (emoji_list p) (modal_subtitle p) current
         (console p) (requests p).

Definition with_list (l : list_content) (subtitle : string) (p : page)
  : page :=
  mkPage (dom p) (modal_display p) l subtitle (currentMessageIdForReact p)
         (console p) (requests p).

Definition console_error (label : string) (e : exn) (p : page) : page :=
  mkPage (dom p) (modal_display p) (emoji_list p) (modal_subtitle p)
         (currentMessageIdForReact p) (console p ++ [(label, e)])
         (requests p).

Definition send (r : request) (p : page) : page :=
  mkPage (dom p) (modal_display p) (emoji_list p) (modal_subtitle p)
         (currentMessageIdForReact p) (console p) (requests p ++ [r]).

(** Modelled from the spec: the stylesheet of the page, which is not among
    the sources, keeps the reaction modal hidden until the script shows
    it. *)
Definition stylesheet_modal_display : string := "none".

Definition computed_display (p : page) : string :=
  if modal_display p =? "" then stylesheet_modal_display
  else modal_display p.

Definition modal_visible (p : page) : bool :=
  negb (computed_display p =? "none").

(** The page has one modal element, [#reaction-modal]. *)
Definition open_modals (p : page) : nat :=
  if modal_visible p then 1 else 0.

(** The page before any user action. *)
Definition initial_page : page :=
  mkPage [] "" (Placeholder "") "" None [] [].

(** The classes [toggleFlag] clears before it sets the new one. *)
Definition state_classes : list string :=
  ["flag-green"; "flag-red"; "flag-pending_react"].

(** The body of the [forEach] callback of [toggleFlag].  The class list is
    cleared before [classList.add] can throw. *)
Definition patch_element (color : string) (el : element)
  : element * option exn :=
  let cleared := classList_remove state_classes (classList el) in
  let added :=
    if negb (color =? "none")
    then classList_add (flag_class_token color) cleared
    else Ok cleared in
  match added with
  | Throw e => (mkElement (el_id el) cleared (flag_indicator el), Some e)
  | Ok cl =>
      (mkElement (el_id el) cl
         (match flag_indicator el with
          | Some _ => Some (getFlagIcon (Some color))
          | None => None
          end),
       None)
  end.

(** Characters that end or escape a double-quoted string of a selector. *)
Definition selector_breaking : list ascii :=
  ["034"%char; "092"%char; "010"%char; "012"%char; "013"%char; "000"%char].

(** Identifiers for which [`[id="msg-${messageId}"]`] is the attribute
    selector it looks like, matching the nodes whose [id] is that text. *)
Definition selector_safe (messageId : string) : bool :=
  negb (existsb (fun c => contains c messageId) selector_breaking).

(** [document.querySelectorAll(`[id="msg-${messageId}"]`).forEach(...)]:
    the matching nodes are patched in document order; an exception leaves
    the later ones as they were. *)
Fixpoint patch_matching (id color : string) (nodes : list element)
  : list element * option exn :=
  match nodes with
  | [] => ([], None)
  | el :: rest =>
      if el_id el =? id then
        match patch_element color el with
        | (el', Some e) => (el' :: rest, Some e)
        | (el', None) =>
            let (rest', r) := patch_matching id color rest in
            (el' :: rest', r)
        end
      else
        let (rest', r) := patch_matching id color rest in
        (el :: rest', r)
  end.

(** The [try] block of [toggleFlag]. *)
Definition toggleFlag_try (messageId color : string)
           (outcome : fetch_outcome unit) (p : page) : page * option exn :=
  let p0 := send (PutFlag messageId color) p in
  match outcome with
  | Rejected reason => (p0, Some (TypeError reason))
  | Responded ok _ =>
      if ok then
        let (nodes, r) := patch_matching ("msg-" ++ messageId) color (dom p0) in
        (with_dom nodes p0, r)
      else (p0, None)
  end.

Definition toggleFlag (messageId color : string)
           (outcome : fetch_outcome unit) (p : page) : page * completion :=
  match toggleFlag_try messageId color outcome p with
  | (p', Some e) => (console_error "Failed to update flag:" e p', Fulfilled)
  | (p', None) => (p', Fulfilled)
  end.

(** The request failed: the network rejected it, or the response is not a
    success. *)
Definition request_failed {P : Type} (outcome : fetch_outcome P) : bool :=
  match outcome with
  | Rejected _ => true
  | Responded ok _ => negb ok
  end.

(** Flag values whose class token [classList.add] accepts. *)
Definition class_token_ok (color : string) : bool :=
  negb (has_whitespace (flag_class_token color)).

(** The visual state a node is patched to for a flag value: the class
    derived from the value is present unless the value is [none], the other
    state classes are absent, every other class is kept, and the indicator,
    where the node has one, shows the icon of the value. *)
Definition patched_to (color : string) (before after : element) : Prop :=
  el_id after = el_id before
  /\ (forall c, In c (classList after) <->
         (color <> "none" /\ c = flag_class_token color)
         \/ (In c (classList before) /\ ~ In c state_classes))
  /\ flag_indicator after
     = option_map (fun _ => getFlagIcon (Some color)) (flag_indicator before).

(** The classes that make up the flag-derived state for a value. *)
Definition derived_classes (color : string) : list string :=
  (state_classes
   ++ (if color =? "none" then [] else [flag_class_token color]))%list.

Definition closeModal (p : page) : page := with_modal "none" None p.

(** [promptReact] up to its first [await]. *)
Definition promptReact_begin (messageId : string) (p : page) : page :=
  send (GetReactions messageId)
    (with_list (Placeholder "Fetching reactions...")
       "Fetching current reactions from Discord..."
       (with_modal "block" (Some messageId) p)).

Definition decimal (n : nat) : string :=
  DecimalString.NilZero.string_of_uint (Nat.to_uint n).

(** [promptReact] after the response has arrived. *)
Definition promptReact_resume (outcome : fetch_outcome reactions_payload)
           (p : page) : page :=
  let network_error := ErrorPlaceholder "Network error." in
  match outcome with
  | Rejected _ => with_list network_error (modal_subtitle p) p
  | Responded _ NotJson => with_list network_error (modal_subtitle p) p
  | Responded _ (ReactionsError error) =>
      if truthy error
      then with_list (ErrorPlaceholder ("Error: " ++ error))
                     "Failed to fetch reactions." p
      else with_list network_error
                     "Select one of the undefined reactions found:" p
  | Responded _ (ReactionsList reactions) =>
      match reactions with
      | [] => with_list (Placeholder "No reactions found on this post.")
                        "This post has no reactions yet." p
      | _ :: _ =>
          with_list (Chips reactions)
            ("Select one of the " ++ decimal (List.length reactions)
             ++ " reactions found:") p
      end
  end.

Definition promptReact (messageId : string)
           (outcome : fetch_outcome reactions_payload) (p : page) : page :=
  promptReact_resume outcome (promptReact_begin messageId p).

Definition selectEmoji (emojiStr : string) (outcome : fetch_outcome unit)
           (p : page) : page * completion :=
  match currentMessageIdForReact p with
  | Some m =>
      if truthy m then
        match toggleFlag m ("pending_react:" ++ emojiStr) outcome p with
        | (p1, Fulfilled) => (closeModal p1, Fulfilled)
        | (p1, RejectedWith e) => (p1, RejectedWith e)
        end
      else (p, Fulfilled)
  | None => (p, Fulfilled)
  end.

(** [window.onclick]: a click whose target is the modal closes it. *)
Definition window_onclick (target_is_modal : bool) (p : page) : page :=
  if target_is_modal then closeModal p else p.

(** [searchMessages] and [viewContext] replace the contents of their list
    with freshly rendered messages; together the two lists hold the message
    nodes of the page. *)
Definition render_lists (shown : list (message * bool)) (p : page) : page :=
  with_dom (map (fun mt => element_of (renderMessage (fst mt) (snd mt))) shown)
           p.

(** One uninterrupted run of script code.  The two halves of [promptReact]
    and of [selectEmoji] are steps of their own, so every interleaving of
    pending requests with user actions is a sequence of steps. *)
Inductive step : page -> page -> Prop :=
| step_render shown p : step p (render_lists shown p)
| step_promptReact_begin m p : step p (promptReact_begin m p)
| step_promptReact_resume o p : step p (promptReact_resume o p)
| step_promptReact m o p : step p (promptReact m o p)
| step_closeModal p : step p (closeModal p)
| step_toggleFlag m c o p : step p (fst (toggleFlag m c o p))
| step_selectEmoji e o p : step p (fst (selectEmoji e o p))
| step_window_onclick t p : step p (window_onclick t p).

Inductive reachable : page -> Prop :=
| reachable_initial : reachable initial_page
| reachable_step p p' : reachable p -> step p p' -> reachable p'.

(** A page that shows message 42 twice, in the search list and, as the
    target, in the context list, next to message 7. *)
Definition two_panels : page :=
  render_lists
    [(mkMessage "42" "ann" "a < b" "2024-05-01T10:00:00Z" [] (Some "none"),
      false);
     (mkMessage "7" "bob" "fine" "2024-05-01T10:01:00Z" [] (Some "red"),
      false);
     (mkMessage "42" "ann" "a < b" "2024-05-01T10:00:00Z" [] (Some "none"),
      true)]
    initial_page.

End Controller.

(** ** Stats view *)

Module Stats.
Import JsString Escape Controller.

(** One entry of the word-frequency response; counts are integers. *)
Record stat : Type := mkStat {
  word : string;
  count : Z
}.

(** The values [Math.max] takes on integer arguments: [-Infinity] for no
    argument at all, else the largest. *)
Inductive number : Type :=
| NegInfinity
| Finite (z : Z).

Definition Math_max (values : list Z) : number :=
  fold_left
    (fun acc z =>
       match acc with
       | NegInfinity => Finite z
       | Finite m => Finite (Z.max m z)
       end)
    values NegInfinity.

(** The double nearest to a positive integer (ties to even).  Below [2^63]
    the primitive conversion rounds; above, the top 63 bits are rounded with
    the discarded bits folded into a sticky bit, then scaled back. *)
Definition float_of_positive (p : positive) : float :=
  let z := Zpos p in
  let n := Z.log2 z in
  if (n <? 63)%Z then PrimFloat.of_uint63 (Uint63.of_Z z)
  else
    let k := (n - 62)%Z in
    let high := Z.shiftr z k in
    let sticky := if (Z.land z (Z.ones k) =? 0)%Z then 0%Z else 1%Z in
    Z.ldexp (PrimFloat.of_uint63 (Uint63.of_Z (Z.lor high sticky))) k.

Definition float_of_Z (z : Z) : float :=
  match z with
  | Z0 => 0%float
  | Zpos p => float_of_positive p
  | Zneg p => (- float_of_positive p)%float
  end.

Definition float_of_number (n : number) : float :=
  match n with
  | NegInfinity => neg_infinity
  | Finite z => float_of_Z z
  end.

(** [(s.count / maxCount) * 100] in double arithmetic. *)
Definition percentage (c : Z) (maxCount : number) : float :=
  ((float_of_Z c / float_of_number maxCount) * 100)%float.

Record bar : Type := mkBar {
  bar_word : string;
  bar_width : float;
  bar_count : Z
}.

(** What the frequency table shows. *)
Inductive table_content : Type :=
| TablePlaceholder (text : string)
| TableError (text : string)
| Chart (bars : list bar).

(** The body of the word-frequency response once decoded: a list of entries,
    or anything the script cannot read as one. *)
Inductive stats_payload : Type :=
| StatsList (stats : list stat)
| StatsNotJson.

(** A division the script performed: numerator and denominator. *)
Definition division : Type := (Z * number)%type.

(** The outcome of [fetchStats]: the table, and the divisions performed on
    the way, in order. *)
Record stats_view : Type := mkStatsView {
  requested : string;
  frequency_table : table_content;
  divisions : list division
}.

(** The [stats.map(...)] that builds the bars. *)
Fixpoint render_bars (maxCount : number) (stats : list stat)
  : list bar * list division :=
  match stats with
  | [] => ([], [])
  | s :: rest =>
      let width := percentage (count s) maxCount in
      let (bars, divs) := render_bars maxCount rest in
      (mkBar (escapeHtml (word s)) width (count s) :: bars,
       (count s, maxCount) :: divs)
  end.

Definition fetchStats (timeframe : string)
           (outcome : fetch_outcome stats_payload) : stats_view :=
  let url := "/stats/word-frequency?timeframe=" ++ timeframe in
  match outcome with
  | Rejected _ => mkStatsView url (TableError "Error fetching stats.") []
  | Responded _ StatsNotJson =>
      mkStatsView url (TableError "Error fetching stats.") []
  | Responded _ (StatsList stats) =>
      match stats with
      | [] =>
          mkStatsView url
            (TablePlaceholder "Not enough data to generate stats.") []
      | _ :: _ =>
          let maxCount := Math_max (map count stats) in
          let (bars, divs) := render_bars maxCount stats in
          mkStatsView url (Chart bars) divs
      end
  end.

End Stats.

(** ** The characters [escapeHtml] replaces *)

Module Special.
Import Escape.

Definition special : list ascii := [amp; lt; gt; quot; apos].

End Special.

(** ** Search results and context view *)

Module Panels.
Import JsString Codec Dom Renderer Controller.



(** What a message list shows: a placeholder paragraph, a placeholder in the
    error colour, or rendered messages. *)
Inductive list_html : Type :=
| ListPlaceholder (text : string)
| ListAlert (text : string)
| ListMessages (items : list markup).


Record panels : Type := mkPanels {
  search_results_display : string;
  context_display : string;
  messages_list : list_html;
  context_list : list_html;
  fetched : list string
}.


(** The click handler of the back button of the context view. *)
Definition context_back (st : panels) : panels :=
  mkPanels "flex" "none" (messages_list st) (context_list st) (fetched st).

Section Search.

(** The browser's [encodeURIComponent]. *)
Variable encodeURIComponent : string -> string.



End Search.


(** The three values the flag buttons of a message send. *)
Definition is_button_value (v : string) : bool :=
  (v =? "green") || (v =? "red") || (v =? "none").

(** The state classes a node carries. *)
Definition state_classes_of (el : element) : list string :=
  filter (fun c => mem c state_classes) (classList el).

Section CustomReact.

(** The browser's [String.prototype.trim]. *)
Variable trim : string -> string.

(** [customReact()], [answer] being what [prompt] returns: the text typed,
    or [None] when the dialog is cancelled. *)
Definition customReact (answer : option string)
           (outcome : fetch_outcome unit) (p : page) : page * completion :=
  match answer with
  | Some emoji =>
      if truthy emoji && truthy (trim emoji)
      then selectEmoji (trim emoji) outcome p
      else (p, Fulfilled)
  | None => (p, Fulfilled)
  end.

End CustomReact.

End Panels.

(** ** Tabs and timeframe filter *)

Module Tabs.
Import JsString.

(** What the tab and timeframe handlers read and write: the selected
    timeframe, the buttons marked active, the tab content shown, the inline
    display of the two control bars, and the timeframes [fetchStats] was
    called with, in order. *)
Record tabs : Type := mkTabs {
  currentTimeframe : string;
  active_tab : option string;
  active_time : option string;
  shown_content : option string;
  messages_controls_display : string;
  stats_controls_display : string;
  stats_fetches : list string
}.

(** The state once the script has run: [currentTimeframe] is [all] and the
    initial [fetchStats()] has been issued with its default argument. *)
Definition loaded : tabs := mkTabs "all" None None None "" "" ["all"].

(** The click handler of a tab button whose [data-tab] is [tab].  The markup
    of the page, which is not among the sources, is taken to hold a content
    panel [<tab>-tab] for every tab button. *)
Definition tab_click (tab : string) (st : tabs) : tabs :=
  mkTabs (currentTimeframe st) (Some tab) (active_time st) (Some tab)
         (if tab =? "messages" then "flex" else "none")
         (if tab =? "stats" then "flex" else "none")
         (if tab =? "stats"
          then (stats_fetches st ++ [currentTimeframe st])%list
          else stats_fetches st).

(** The click handler of a timeframe button whose [data-time] is [time]. *)
Definition time_click (time : string) (st : tabs) : tabs :=
  mkTabs time (active_tab st) (Some time) (shown_content st)
         (messages_controls_display st) (stats_controls_display st)
         (stats_fetches st ++ [time])%list.

(** The click handler of the refresh button. *)
Definition refresh_click (st : tabs) : tabs :=
  mkTabs (currentTimeframe st) (active_tab st) (active_time st)
         (shown_content st) (messages_controls_display st)
         (stats_controls_display st)
         (stats_fetches st ++ [currentTimeframe st])%list.

Inductive event : Type :=
| TabClick (tab : string)
| TimeClick (time : string)
| RefreshClick.

Definition handle (e : event) (st : tabs) : tabs :=
  match e with
  | TabClick tab => tab_click tab st
  | TimeClick time => time_click time st
  | RefreshClick => refresh_click st
  end.

(** The clicks that call [fetchStats]. *)
Definition refetches (e : event) : bool :=
  match e with
  | TabClick tab => tab =? "stats"
  | TimeClick _ => true
  | RefreshClick => true
  end.

(** The state after a sequence of clicks, oldest first. *)
Definition run (events : list event) : tabs :=
  fold_left (fun st e => handle e st) events loaded.

End Tabs.

(** ** The script without reactions *)

Module Plain.
Import JsString Dom Renderer.

(** The indicator of [renderMessage] in the script that has no reaction
    picker: the local [flagIcon]. *)
Definition flagIcon (flag : option string) : string :=
  if flag_is flag "green" then "🟢"
  else if flag_is flag "red" then "🔴"
  else "⚪".

(** The body of the [forEach] callback of its [toggleFlag]. *)
Definition patch_plain (color : string) (el : element)
  : element * option exn :=
  let cleared := classList_remove ["flag-green"; "flag-red"] (classList el) in
  let added :=
    if negb (color =? "none")
    then classList_add ("flag-" ++ color) cleared
    else Ok cleared in
  match added with
  | Throw e => (mkElement (el_id el) cleared (flag_indicator el), Some e)
  | Ok cl =>
      (mkElement (el_id el) cl
         (match flag_indicator el with
          | Some _ =>
              Some (if color =? "green" then "🟢"
                    else if color =? "red" then "🔴"
                    else "⚪")
          | None => None
          end),
       None)
  end.

End Plain.

(** ** Properties of the string primitives *)

Module JsStringFacts.
Import JsString.

Lemma append_assoc (s t u : string) : (s ++ t) ++ u = s ++ (t ++ u).
Proof. induction s as [|a s IH]; simpl; [reflexivity | now rewrite IH]. Qed.

Lemma replaceAll_app c r s t :
  replaceAll c r (s ++ t) = replaceAll c r s ++ replaceAll c r t.
Proof.
  induction s as [|a s IH]; simpl; [reflexivity|].
  destruct (Ascii.eqb a c); rewrite IH.
  - now rewrite append_assoc.
  - reflexivity.
Qed.

Lemma replaceAll_absent c r s :
  contains c s = false -> replaceAll c r s = s.
Proof.
  induction s as [|a s IH]; simpl; [reflexivity|].
  destruct (Ascii.eqb a c); simpl; [discriminate|].
  intros H. now rewrite IH.
Qed.

Lemma contains_app c s t :
  contains c (s ++ t) = contains c s || contains c t.
Proof.
  induction s as [|a s IH]; simpl; [reflexivity|].
  now rewrite IH, orb_assoc.
Qed.

End JsStringFacts.

(** ** [escapeHtml] *)

Module EscapeFacts.
Import JsString JsStringFacts Escape.

Ltac each_character a :=
  destruct a as [[|] [|] [|] [|] [|] [|] [|] [|]].

Lemma escapeHtml_app s t : escapeHtml (s ++ t) = escapeHtml s ++ escapeHtml t.
Proof. unfold escapeHtml. now rewrite !replaceAll_app. Qed.

Lemma escapeHtml_char a : escapeHtml (String a EmptyString) = entity_of a.
Proof. each_character a; reflexivity. Qed.

Lemma escapeHtml_cons a s :
  escapeHtml (String a s) = entity_of a ++ escapeHtml s.
Proof.
  change (String a s) with (String a EmptyString ++ s).
  now rewrite escapeHtml_app, escapeHtml_char.
Qed.

Lemma escapeHtml_single_pass s : escapeHtml s = escape_single_pass s.
Proof.
  induction s as [|a s IH]; [reflexivity|].
  rewrite escapeHtml_cons, IH. reflexivity.
Qed.

Lemma no_raw_special_entity a t :
  no_raw_special (entity_of a ++ t) = no_raw_special t.
Proof. each_character a; reflexivity. Qed.

Lemma contains_entity c a :
  In c [lt; gt; quot; apos] -> contains c (entity_of a) = false.
Proof.
  intros [<-|[<-|[<-|[<-|[]]]]]; each_character a; reflexivity.
Qed.

Lemma text_of_entity a t :
  text_of O (entity_of a ++ t) = String a (text_of O t).
Proof. each_character a; reflexivity. Qed.

Lemma no_raw_special_single_pass s :
  no_raw_special (escape_single_pass s) = true.
Proof.
  induction s as [|a s IH]; [reflexivity|].
  simpl. now rewrite no_raw_special_entity.
Qed.

Lemma contains_single_pass c s :
  In c [lt; gt; quot; apos] -> contains c (escape_single_pass s) = false.
Proof.
  intros Hc. induction s as [|a s IH]; [reflexivity|].
  simpl. now rewrite contains_app, contains_entity, IH.
Qed.

Lemma textContent_single_pass s : textContent (escape_single_pass s) = s.
Proof.
  unfold textContent. induction s as [|a s IH]; [reflexivity|].
  simpl. now rewrite text_of_entity, IH.
Qed.

(** C4. [escapeHtml] replaces exactly the five characters ampersand, [<],
    [>], double quote and apostrophe with their entities: its five passes,
    run in that order, give what one pass over the input gives, so no entity
    is escaped again.  The output holds none of [<], [>], double quote or
    apostrophe, every ampersand in it starts one of the five entities, and
    the text the markup shows is the input. *)
Theorem escapeHtml_escapes_exactly_five (s : string) :
  escapeHtml s = escape_single_pass s
  /\ no_raw_special (escapeHtml s) = true
  /\ (forall c, In c [lt; gt; quot; apos] ->
          contains c (escapeHtml s) = false)
  /\ textContent (escapeHtml s) = s.
Proof.
  rewrite escapeHtml_single_pass. repeat split.
  - apply no_raw_special_single_pass.
  - intros c Hc. now apply contains_single_pass.
  - apply textContent_single_pass.
Qed.

End EscapeFacts.

(** ** The flag codec *)

Module CodecFacts.
Import JsString JsStringFacts Codec.

Lemma split_nonempty sep s : split sep s <> [].
Proof.
  destruct s as [|a s]; simpl; [discriminate|].
  destruct (Ascii.eqb a sep); [discriminate|].
  destruct (split sep s); discriminate.
Qed.

Lemma split_absent sep s : contains sep s = false -> split sep s = [s].
Proof.
  induction s as [|a s IH]; simpl; [reflexivity|].
  destruct (Ascii.eqb a sep); simpl; [discriminate|].
  intros H. now rewrite IH.
Qed.

Lemma split_pending_react x :
  split colon ("pending_react:" ++ x) = "pending_react" :: split colon x.
Proof. reflexivity. Qed.

Lemma startsWith_app p x : startsWith (p ++ x) p = true.
Proof.
  induction p as [|a p IH]; simpl; [reflexivity|].
  now rewrite Ascii.eqb_refl, IH.
Qed.

Lemma startsWith_inv s p :
  startsWith s p = true -> exists x, s = p ++ x.
Proof.
  revert s. induction p as [|b p IH]; intros s H; simpl in *.
  - now exists s.
  - destruct s as [|a s]; [discriminate|].
    apply andb_true_iff in H as [Hab Hrest].
    apply Ascii.eqb_eq in Hab. subst b.
    destruct (IH _ Hrest) as [x ->]. now exists x.
Qed.

(** A value is treated as a pending reaction exactly when it starts with
    the literal prefix. *)
Lemma pending_react_iff_prefix f :
  pending_react_emoji f <> None <-> startsWith f "pending_react:" = true.
Proof.
  unfold pending_react_emoji. split.
  - destruct (truthy f), (startsWith f "pending_react:"); simpl; congruence.
  - intros H. rewrite H.
    destruct (startsWith_inv _ _ H) as [x ->]. simpl. discriminate.
Qed.

(** The emoji shown for [pending_react:<x>] is the first colon-separated
    segment of [x]. *)
Lemma pending_react_emoji_first_segment x :
  pending_react_emoji ("pending_react:" ++ x)
  = Some (hd EmptyString (split colon x)).
Proof.
  unfold pending_react_emoji. rewrite startsWith_app, split_pending_react.
  simpl. pose proof (split_nonempty colon x) as Hne.
  destruct (split colon x); [contradiction | reflexivity].
Qed.

(** A token without a colon is shown whole. *)
Lemma pending_react_emoji_plain x :
  contains colon x = false ->
  pending_react_emoji ("pending_react:" ++ x) = Some x.
Proof.
  intros H. now rewrite pending_react_emoji_first_segment, split_absent.
Qed.

Lemma first_segment_has_no_separator sep s :
  contains sep (hd EmptyString (split sep s)) = false.
Proof.
  induction s as [|a s IH]; simpl; [reflexivity|].
  destruct (Ascii.eqb a sep) eqn:E; [reflexivity|].
  destruct (split sep s) as [|seg segs]; simpl in *; now rewrite E.
Qed.

(** A token with a colon is never shown whole. *)
Lemma pending_react_emoji_colon_token x :
  contains colon x = true ->
  pending_react_emoji ("pending_react:" ++ x) <> Some x.
Proof.
  intros Hx. rewrite pending_react_emoji_first_segment. intros [= H].
  pose proof (first_segment_has_no_separator colon x) as Hseg.
  rewrite H in Hseg. congruence.
Qed.

(** C1, at the input [pending_react:a:b].  The prefix test classifies the
    value as a pending reaction, but the emoji is element 1 of the split on
    every colon: [a], where the specification promises [a:b]. *)
Theorem getFlagIcon_cuts_token_at_second_colon :
  startsWith "pending_react:a:b" "pending_react:" = true
  /\ split colon "pending_react:a:b" = ["pending_react"; "a"; "b"]
  /\ pending_react_emoji "pending_react:a:b" = Some "a"
  /\ pending_react_emoji "pending_react:a:b" <> Some "a:b"
  /\ getFlagIcon (Some "pending_react:a:b")
     = "<span title=" ++ dq ++ "Pending reaction: a" ++ dq ++ ">⏳a</span>".
Proof. repeat split; try reflexivity. discriminate. Qed.

Lemma flag_class_token_pending x :
  flag_class_token ("pending_react:" ++ x) = "flag-pending_react".
Proof. reflexivity. Qed.

Lemma flag_class_token_values :
  flag_class_token "green" = "flag-green"
  /\ flag_class_token "red" = "flag-red"
  /\ flag_class_token "pending_react" = "flag-pending_react".
Proof. repeat split; reflexivity. Qed.

End CodecFacts.

(** ** Class lists *)

Module DomFacts.
Import JsString Dom.

Lemma mem_In t l : mem t l = true <-> In t l.
Proof.
  unfold mem. rewrite existsb_exists. split.
  - intros [x [Hx Heq]]. apply String.eqb_eq in Heq. now subst.
  - intros H. exists t. split; [assumption | apply String.eqb_refl].
Qed.

Lemma mem_app t l l' : mem t (l ++ l') = mem t l || mem t l'.
Proof. unfold mem. apply existsb_app. Qed.

Lemma In_classList_remove c tokens cl :
  In c (classList_remove tokens cl) <-> In c cl /\ ~ In c tokens.
Proof.
  unfold classList_remove. rewrite filter_In, negb_true_iff.
  rewrite <- (mem_In c tokens), not_true_iff_false. reflexivity.
Qed.

Lemma classList_remove_idempotent tokens cl :
  classList_remove tokens (classList_remove tokens cl)
  = classList_remove tokens cl.
Proof.
  unfold classList_remove. induction cl as [|c cl IH]; simpl; [reflexivity|].
  destruct (mem c tokens) eqn:E; simpl; [assumption|].
  now rewrite E, IH.
Qed.

Lemma classList_remove_app tokens cl cl' :
  classList_remove tokens (cl ++ cl')
  = (classList_remove tokens cl ++ classList_remove tokens cl')%list.
Proof. unfold classList_remove. apply filter_app. Qed.

(** Whether [classList.add] throws depends on the token alone. *)
Lemma classList_add_throw token cl e :
  classList_add token cl = Throw e ->
  forall cl', classList_add token cl' = Throw e.
Proof.
  unfold classList_add. intros H cl'.
  destruct (token =? ""); [assumption|].
  destruct (has_whitespace token); [assumption|].
  destruct (mem token cl); discriminate.
Qed.

Lemma In_classList_add token cl cl' :
  classList_add token cl = Ok cl' ->
  forall c, In c cl' <-> c = token \/ In c cl.
Proof.
  unfold classList_add.
  destruct (token =? ""); [discriminate|].
  destruct (has_whitespace token); [discriminate|].
  destruct (mem token cl) eqn:E; intros [= <-] c.
  - apply mem_In in E. split; [now right | intros [->|H]; assumption].
  - rewrite in_app_iff. simpl. intuition congruence.
Qed.

(** Clearing and adding the same class a second time changes nothing. *)
Lemma classList_add_remove_stable token tokens cl cl1 :
  classList_add token (classList_remove tokens cl) = Ok cl1 ->
  classList_add token (classList_remove tokens cl1) = Ok cl1.
Proof.
  unfold classList_add.
  destruct (token =? ""); [discriminate|].
  destruct (has_whitespace token); [discriminate|].
  destruct (mem token (classList_remove tokens cl)) eqn:E; intros [= <-].
  - now rewrite classList_remove_idempotent, E.
  - rewrite classList_remove_app, classList_remove_idempotent.
    change (classList_remove tokens [token])
      with (if negb (mem token tokens) then [token] else []).
    destruct (mem token tokens); simpl.
    + now rewrite app_nil_r, E.
    + rewrite mem_app, E. simpl.
      unfold mem. simpl. now rewrite String.eqb_refl.
Qed.

End DomFacts.

(** ** Flag mutation *)

Module ControllerFacts.
Import JsString Codec Dom Renderer Controller CodecFacts DomFacts.

Lemma Forall2_In_r {A B} (R : A -> B -> Prop) l l' b :
  Forall2 R l l' -> In b l' -> exists a, In a l /\ R a b.
Proof.
  induction 1 as [|x y l l' Hxy _ IH]; simpl; [contradiction|].
  intros [<-|Hb].
  - exists x. auto.
  - destruct (IH Hb) as [a [Ha Hab]]. exists a. auto.
Qed.

Lemma patch_element_id color el :
  el_id (fst (patch_element color el)) = el_id el.
Proof.
  unfold patch_element.
  destruct (negb (color =? "none"));
    [destruct (classList_add _ _)|]; reflexivity.
Qed.

(** A second application of the callback finds nothing to change. *)
Lemma patch_element_idempotent color el :
  patch_element color (fst (patch_element color el))
  = patch_element color el.
Proof.
  unfold patch_element.
  destruct (color =? "none") eqn:Hnone; cbn [negb].
  - cbn [fst classList el_id flag_indicator].
    rewrite classList_remove_idempotent.
    now destruct (flag_indicator el).
  - destruct (classList_add (flag_class_token color)
                (classList_remove state_classes (classList el)))
      as [cl|e] eqn:Hadd; cbn [fst classList el_id flag_indicator].
    + rewrite (classList_add_remove_stable _ _ _ _ Hadd).
      now destruct (flag_indicator el).
    + rewrite classList_remove_idempotent, Hadd. reflexivity.
Qed.

Lemma patch_matching_idempotent id color nodes :
  patch_matching id color (fst (patch_matching id color nodes))
  = patch_matching id color nodes.
Proof.
  induction nodes as [|el nodes IH]; simpl; [reflexivity|].
  destruct (el_id el =? id) eqn:Hid.
  - pose proof (patch_element_idempotent color el) as Hel.
    pose proof (patch_element_id color el) as Hsame.
    destruct (patch_element color el) as [el' [e|]] eqn:Hp; simpl in *.
    + now rewrite Hsame, Hid, Hel.
    + destruct (patch_matching id color nodes) as [rest' r] eqn:Hrest.
      simpl in *. now rewrite Hsame, Hid, Hel, IH.
  - destruct (patch_matching id color nodes) as [rest' r] eqn:Hrest.
    simpl in *. now rewrite Hid, IH.
Qed.

Lemma patch_element_accepts color el :
  class_token_ok color = true ->
  exists el', patch_element color el = (el', None)
              /\ patched_to color el el'.
Proof.
  unfold class_token_ok, patch_element, patched_to. intros Hok.
  apply negb_true_iff in Hok.
  destruct (color =? "none") eqn:Hnone; cbn [negb].
  - apply String.eqb_eq in Hnone.
    eexists. split; [reflexivity|].
    cbn [el_id classList flag_indicator]. split; [reflexivity|]. split.
    + intros c. rewrite In_classList_remove. tauto.
    + now destruct (flag_indicator el).
  - apply String.eqb_neq in Hnone.
    destruct (classList_add (flag_class_token color)
                (classList_remove state_classes (classList el)))
      as [cl|e] eqn:Hadd.
    + eexists. split; [reflexivity|].
      cbn [el_id classList flag_indicator]. split; [reflexivity|]. split.
      * intros c.
        rewrite (In_classList_add _ _ _ Hadd), In_classList_remove. tauto.
      * now destruct (flag_indicator el).
    + exfalso. unfold classList_add in Hadd.
      change (flag_class_token color =? "") with false in Hadd.
      rewrite Hok in Hadd.
      destruct (mem _ _); discriminate.
Qed.

Lemma patch_matching_accepts id color nodes :
  class_token_ok color = true ->
  exists nodes',
    patch_matching id color nodes = (nodes', None)
    /\ Forall2 (fun before after =>
                  if el_id before =? id then patched_to color before after
                  else after = before) nodes nodes'.
Proof.
  intros Hok. induction nodes as [|el nodes [rest' [Hrest Hall]]]; simpl.
  - exists []. split; [reflexivity | constructor].
  - rewrite Hrest. destruct (el_id el =? id) eqn:Hid.
    + destruct (patch_element_accepts color el Hok) as [el' [-> Hel]].
      exists (el' :: rest'). split; [reflexivity|].
      constructor; [now rewrite Hid | assumption].
    + exists (el :: rest'). split; [reflexivity|].
      constructor; [now rewrite Hid | assumption].
Qed.

Lemma toggleFlag_fulfilled m c o p : snd (toggleFlag m c o p) = Fulfilled.
Proof.
  unfold toggleFlag. now destruct (toggleFlag_try m c o p) as [p' [e|]].
Qed.

Lemma toggleFlag_try_frame m c o p :
  let p' := fst (toggleFlag_try m c o p) in
  requests p' = (requests p ++ [PutFlag m c])%list
  /\ console p' = console p
  /\ modal_display p' = modal_display p
  /\ currentMessageIdForReact p' = currentMessageIdForReact p.
Proof.
  unfold toggleFlag_try. destruct o as [reason|[|] payload]; simpl; auto.
  destruct (patch_matching _ _ _); simpl; auto.
Qed.

Lemma toggleFlag_frame m c o p :
  let p' := fst (toggleFlag m c o p) in
  requests p' = (requests p ++ [PutFlag m c])%list
  /\ modal_display p' = modal_display p
  /\ currentMessageIdForReact p' = currentMessageIdForReact p.
Proof.
  pose proof (toggleFlag_try_frame m c o p) as H. unfold toggleFlag.
  destruct (toggleFlag_try m c o p) as [p' [e|]]; simpl in *; tauto.
Qed.


Lemma toggleFlag_success_dom m v p :
  dom (fst (toggleFlag m v (Responded true tt) p))
  = fst (patch_matching ("msg-" ++ m) v (dom p)).
Proof.
  unfold toggleFlag, toggleFlag_try. cbn [send dom].
  now destruct (patch_matching ("msg-" ++ m) v (dom p)) as [nodes [e|]].
Qed.

(** C2. After a successful flag mutation every node tagged with the
    message identifier is patched in place to the state derived from the
    value: the derived class and no other state class, its other classes
    kept, its indicator showing the icon of the value.  Any two such nodes
    agree on that state.  Nodes of other messages are untouched, and the
    only request issued is the mutation itself. *)
Theorem toggleFlag_patches_every_matching_node messageId value p :
  selector_safe messageId = true ->
  class_token_ok value = true ->
  let p' := fst (toggleFlag messageId value (Responded true tt) p) in
  Forall2 (fun before after =>
             if el_id before =? "msg-" ++ messageId
             then patched_to value before after
             else after = before)
          (dom p) (dom p')
  /\ (forall a b,
        In a (dom p') -> In b (dom p') ->
        el_id a = "msg-" ++ messageId -> el_id b = "msg-" ++ messageId ->
        (forall c, In c (derived_classes value) ->
                   (In c (classList a) <-> In c (classList b)))
        /\ (forall ia ib,
               flag_indicator a = Some ia -> flag_indicator b = Some ib ->
               ia = ib))
  /\ requests p' = (requests p ++ [PutFlag messageId value])%list
  /\ console p' = console p.
Proof.
  intros _ Hok p'.
  destruct (patch_matching_accepts ("msg-" ++ messageId) value (dom p) Hok)
    as [nodes' [Hpatch Hall]].
  assert (Hp' : p' = with_dom nodes' (send (PutFlag messageId value) p)).
  { subst p'. unfold toggleFlag, toggleFlag_try.
    cbn [send dom]. now rewrite Hpatch. }
  rewrite Hp'. cbn [with_dom send dom requests console].
  split; [assumption|]. split; [|split; reflexivity].
  assert (Hstate : forall a, In a nodes' -> el_id a = "msg-" ++ messageId ->
            exists before, patched_to value before a).
  { intros a Ha Hid.
    destruct (Forall2_In_r _ _ _ _ Hall Ha) as [before [_ Hrel]].
    exists before.
    destruct (el_id before =? "msg-" ++ messageId) eqn:E; [assumption|].
    subst a. apply String.eqb_neq in E. contradiction. }
  intros a b Ha Hb Hida Hidb.
  destruct (Hstate a Ha Hida) as [a0 [_ [Hca Hia]]].
  destruct (Hstate b Hb Hidb) as [b0 [_ [Hcb Hib]]].
  split.
  - intros c Hc. rewrite Hca, Hcb.
    unfold derived_classes in Hc. apply in_app_iff in Hc.
    destruct Hc as [Hc|Hc]; [tauto|].
    destruct (value =? "none") eqn:E; [contradiction|].
    apply String.eqb_neq in E. destruct Hc as [<-|[]]. tauto.
  - intros ia ib Ea Eb. rewrite Hia in Ea. rewrite Hib in Eb.
    destruct (flag_indicator a0); [|discriminate].
    destruct (flag_indicator b0); [|discriminate].
    simpl in Ea, Eb. congruence.
Qed.

(** The two nodes of message 42 are patched, the node of message 7 is
    not. *)
Lemma toggleFlag_patches_two_panels :
  selector_safe "42" = true
  /\ class_token_ok "pending_react:ok" = true
  /\ Forall2 (fun before after =>
                if el_id before =? "msg-42"
                then patched_to "pending_react:ok" before after
                else after = before)
             (dom two_panels)
             (dom (fst (toggleFlag "42" "pending_react:ok"
                          (Responded true tt) two_panels))).
Proof.
  split; [reflexivity|]. split; [reflexivity|].
  apply (toggleFlag_patches_every_matching_node
           "42" "pending_react:ok" two_panels); reflexivity.
Defined.

(** C3 as stated fails: a response that is not a success is a failed
    request, yet nothing is logged for it. *)
Lemma toggleFlag_logs_nothing_for_refused_response :
  ~ (forall messageId value (outcome : fetch_outcome unit) p,
        request_failed outcome = true ->
        let r := toggleFlag messageId value outcome p in
        dom (fst r) = dom p
        /\ console (fst r) <> console p
        /\ snd r = Fulfilled).
Proof.
  intros H.
  destruct (H "42" "green" (Responded false tt) two_panels eq_refl)
    as [_ [Hlog _]].
  now apply Hlog.
Qed.

(** C3, amended. When the request fails, the nodes of the page are left as
    they were and the call settles without an exception.  A network failure
    is logged to the console; a response that is not a success is not. *)
Theorem toggleFlag_failure_leaves_nodes messageId value
        (outcome : fetch_outcome unit) p :
  request_failed outcome = true ->
  let r := toggleFlag messageId value outcome p in
  dom (fst r) = dom p
  /\ snd r = Fulfilled
  /\ console (fst r)
     = match outcome with
       | Rejected reason =>
           (console p ++ [("Failed to update flag:", TypeError reason)])%list
       | Responded _ _ => console p
       end.
Proof.
  destruct outcome as [reason|[|] payload]; simpl; intros H;
    [|discriminate|]; repeat split; reflexivity.
Qed.

(** An unreachable backend leaves the three nodes as they were. *)
Lemma toggleFlag_offline_leaves_two_panels :
  request_failed (Rejected (P:=unit) "Failed to fetch") = true
  /\ dom (fst (toggleFlag "42" "green" (Rejected "Failed to fetch")
                 two_panels))
     = dom two_panels.
Proof.
  split; [reflexivity|].
  apply (toggleFlag_failure_leaves_nodes
           "42" "green" (Rejected "Failed to fetch") two_panels).
  reflexivity.
Defined.

(** C7. The class derived from a flag value drops what follows the first
    colon, so [pending_react:<x>] and a plain [pending_react] give the same
    class; and the derivation is stable: patching a node, or a whole page,
    with the same value a second time yields the class list and the icon of
    the first time. *)
Theorem flag_derivation_stable :
  (forall x, flag_class_token ("pending_react:" ++ x)
             = flag_class_token "pending_react")
  /\ (forall v el, patch_element v (fst (patch_element v el))
                   = patch_element v el)
  /\ (forall id v nodes,
         patch_matching id v (fst (patch_matching id v nodes))
         = patch_matching id v nodes)
  /\ (forall m v p,
         let once := fst (toggleFlag m v (Responded true tt) p) in
         dom (fst (toggleFlag m v (Responded true tt) once)) = dom once).
Proof.
  split; [intros x; apply flag_class_token_pending|].
  split; [apply patch_element_idempotent|].
  split; [apply patch_matching_idempotent|].
  intros m v p once. subst once.
  now rewrite !toggleFlag_success_dom, patch_matching_idempotent.
Qed.

(** C8. With the modal open for message [m], selecting the candidate with
    emoji token [e] sends the flag mutation for [m] with exactly the value
    [pending_react:] followed by [e], and then closes the modal. *)
Theorem selectEmoji_sends_pending_react e m (outcome : fetch_outcome unit) p :
  currentMessageIdForReact p = Some m ->
  m <> "" ->
  let r := selectEmoji e outcome p in
  requests (fst r) = (requests p ++ [PutFlag m ("pending_react:" ++ e)])%list
  /\ modal_visible (fst r) = false
  /\ currentMessageIdForReact (fst r) = None
  /\ snd r = Fulfilled.
Proof.
  intros Hcur Hm. unfold selectEmoji. rewrite Hcur.
  assert (Htruthy : truthy m = true).
  { unfold truthy. apply negb_true_iff. now apply String.eqb_neq. }
  rewrite Htruthy.
  pose proof (toggleFlag_fulfilled m ("pending_react:" ++ e) outcome p) as Hf.
  pose proof (toggleFlag_frame m ("pending_react:" ++ e) outcome p) as Hfr.
  destruct (toggleFlag m ("pending_react:" ++ e) outcome p) as [p1 c].
  simpl in Hf, Hfr. subst c. destruct Hfr as [Hreq _].
  simpl. auto.
Qed.

(** Opening the modal for message 42 and selecting a custom emoji. *)
Lemma selectEmoji_after_promptReact :
  currentMessageIdForReact
    (promptReact "42" (Responded true (ReactionsList
       [mkReaction "party:991" (Some "991") "party" 3])) two_panels)
  = Some "42"
  /\ "42" <> ""
  /\ requests
       (fst (selectEmoji "party:991" (Responded true tt)
               (promptReact "42" (Responded true (ReactionsList
                  [mkReaction "party:991" (Some "991") "party" 3]))
                  two_panels)))
     = [GetReactions "42"; PutFlag "42" "pending_react:party:991"].
Proof.
  split; [reflexivity|]. split; [discriminate|].
  apply (selectEmoji_sends_pending_react
           "party:991" "42" (Responded true tt)
           (promptReact "42" (Responded true (ReactionsList
              [mkReaction "party:991" (Some "991") "party" 3])) two_panels)).
  - reflexivity.
  - discriminate.
Defined.

(** The invariant reads the modal's display and the bound identifier
    only. *)
Lemma modal_invariant_frame p q :
  modal_display q = modal_display p ->
  currentMessageIdForReact q = currentMessageIdForReact p ->
  (currentMessageIdForReact p <> None <-> modal_visible p = true) ->
  (currentMessageIdForReact q <> None <-> modal_visible q = true).
Proof.
  unfold modal_visible, computed_display. now intros -> ->.
Qed.

Lemma modal_invariant_closed p :
  currentMessageIdForReact (closeModal p) <> None
  <-> modal_visible (closeModal p) = true.
Proof. simpl. split; [congruence | discriminate]. Qed.

Lemma modal_invariant_opened m p :
  currentMessageIdForReact (promptReact_begin m p) <> None
  <-> modal_visible (promptReact_begin m p) = true.
Proof. simpl. split; [reflexivity | discriminate]. Qed.

Lemma promptReact_resume_frame o p :
  modal_display (promptReact_resume o p) = modal_display p
  /\ currentMessageIdForReact (promptReact_resume o p)
     = currentMessageIdForReact p.
Proof.
  destruct o as [reason|ok [error|[|r rs]|]]; simpl; auto.
  destruct (truthy error); simpl; auto.
Qed.

(** [selectEmoji] either does nothing or ends by closing the modal. *)
Lemma selectEmoji_cases e o p :
  fst (selectEmoji e o p) = p
  \/ exists p1, fst (selectEmoji e o p) = closeModal p1.
Proof.
  unfold selectEmoji.
  destruct (currentMessageIdForReact p) as [m|]; [|now left].
  destruct (truthy m); [|now left].
  pose proof (toggleFlag_fulfilled m ("pending_react:" ++ e) o p) as Hf.
  destruct (toggleFlag m ("pending_react:" ++ e) o p) as [p1 c].
  simpl in Hf. subst c. right. now exists p1.
Qed.

Lemma step_preserves_modal_invariant p p' :
  step p p' ->
  (currentMessageIdForReact p <> None <-> modal_visible p = true) ->
  (currentMessageIdForReact p' <> None <-> modal_visible p' = true).
Proof.
  intros Hstep Hinv. destruct Hstep.
  - now apply (modal_invariant_frame p).
  - apply modal_invariant_opened.
  - destruct (promptReact_resume_frame o p) as [Hd Hc].
    now apply (modal_invariant_frame p).
  - destruct (promptReact_resume_frame o (promptReact_begin m p)) as [Hd Hc].
    apply (modal_invariant_frame (promptReact_begin m p)); auto.
    apply modal_invariant_opened.
  - apply modal_invariant_closed.
  - destruct (toggleFlag_frame m c o p) as [_ [Hd Hc]].
    now apply (modal_invariant_frame p).
  - destruct (selectEmoji_cases e o p) as [->|[p1 ->]];
      [assumption | apply modal_invariant_closed].
  - destruct t; [apply modal_invariant_closed | assumption].
Qed.

(** C9. In every state the modal operations, interleaved in any way with
    flag mutations and re-renders, can reach: the page's single modal
    accounts for at most one open modal, [currentMessageIdForReact] is
    non-null exactly when the modal is visible, and closing the modal
    resets it to null. *)
Theorem modal_bound_iff_visible p :
  reachable p ->
  (open_modals p <= 1)%nat
  /\ (currentMessageIdForReact p <> None <-> modal_visible p = true)
  /\ currentMessageIdForReact (closeModal p) = None
  /\ modal_visible (closeModal p) = false.
Proof.
  intros Hreach. split; [|split; [|split; reflexivity]].
  - unfold open_modals. destruct (modal_visible p); lia.
  - induction Hreach as [|p p' _ IH Hstep].
    + simpl. split; [congruence | discriminate].
    + now apply (step_preserves_modal_invariant p).
Qed.

(** The page right after the modal was opened for message 42. *)
Lemma modal_bound_after_opening :
  reachable (promptReact_begin "42" two_panels)
  /\ (currentMessageIdForReact (promptReact_begin "42" two_panels) <> None
      <-> modal_visible (promptReact_begin "42" two_panels) = true).
Proof.
  assert (H : reachable (promptReact_begin "42" two_panels)).
  { eapply reachable_step; [|apply step_promptReact_begin].
    eapply reachable_step; [apply reachable_initial|].
    apply step_render. }
  split; [exact H|].
  apply (modal_bound_iff_visible (promptReact_begin "42" two_panels) H).
Defined.

(** C10. A message whose flag is neither [green] nor [red] is rendered
    without any [flag-] class.  In particular a message with a pending
    reaction is rendered without [flag-pending_react], the class the patch
    of [toggleFlag] gives the same node for the same value. *)
Theorem renderMessage_gives_no_pending_class msg isTarget :
  flag msg <> Some "green" ->
  flag msg <> Some "red" ->
  let el := element_of (renderMessage msg isTarget) in
  (forall c, In c (classList el) -> startsWith c "flag-" = false)
  /\ (forall e,
        flag msg = Some ("pending_react:" ++ e) ->
        ~ In "flag-pending_react" (classList el)
        /\ In "flag-pending_react"
              (classList (fst (patch_element ("pending_react:" ++ e) el)))).
Proof.
  intros Hgreen Hred el.
  assert (Hclasses : classList el = ["message-item"; "target-message"]
                     \/ classList el = ["message-item"]).
  { subst el. unfold element_of, renderMessage. cbn [classList class_attr].
    assert (Hg : flag_is (flag msg) "green" = false).
    { destruct (flag msg) as [f|]; [|reflexivity]. simpl.
      apply String.eqb_neq. congruence. }
    assert (Hr : flag_is (flag msg) "red" = false).
    { destruct (flag msg) as [f|]; [|reflexivity]. simpl.
      apply String.eqb_neq. congruence. }
    rewrite Hg, Hr. destruct isTarget; [left | right]; reflexivity. }
  split.
  - intros c Hc.
    destruct Hclasses as [H|H]; rewrite H in Hc; simpl in Hc;
      intuition (subst; reflexivity).
  - intros e _. split.
    + destruct Hclasses as [H|H]; rewrite H; simpl;
        intuition discriminate.
    + unfold patch_element. rewrite flag_class_token_pending.
      destruct Hclasses as [H|H]; rewrite H; simpl; auto.
Qed.

(** Message 42 rendered afresh with its pending reaction. *)
Lemma renderMessage_pending_in_two_panels :
  Some "pending_react:ok" <> Some "green"
  /\ Some "pending_react:ok" <> Some "red"
  /\ ~ In "flag-pending_react"
         (classList (element_of (renderMessage
            (mkMessage "42" "ann" "a < b" "2024-05-01T10:00:00Z" []
               (Some "pending_react:ok")) true))).
Proof.
  split; [discriminate|]. split; [discriminate|].
  refine (proj1 (proj2 (renderMessage_gives_no_pending_class
           (mkMessage "42" "ann" "a < b" "2024-05-01T10:00:00Z" []
              (Some "pending_react:ok")) true _ _) "ok" eq_refl));
    discriminate.
Defined.

End ControllerFacts.

(** ** The word-frequency chart *)

Module StatsFacts.
Import JsString Escape Controller Stats.
Open Scope Z_scope.

Lemma fold_max_finite values m :
  fold_left
    (fun acc z =>
       match acc with
       | NegInfinity => Finite z
       | Finite m' => Finite (Z.max m' z)
       end)
    values (Finite m)
  = Finite (fold_left Z.max values m).
Proof.
  revert m. induction values as [|z values IH]; intros m; simpl;
    [reflexivity | apply IH].
Qed.

Lemma fold_max_bounds values m :
  m <= fold_left Z.max values m
  /\ (forall z, In z values -> z <= fold_left Z.max values m).
Proof.
  revert m. induction values as [|x values IH]; intros m; simpl.
  - split; [lia | contradiction].
  - destruct (IH (Z.max m x)) as [Hm Hall]. split; [lia|].
    intros z [<-|Hz]; [lia | now apply Hall].
Qed.

Lemma fold_max_attained values m :
  fold_left Z.max values m = m \/ In (fold_left Z.max values m) values.
Proof.
  revert m. induction values as [|x values IH]; intros m; simpl.
  - now left.
  - destruct (IH (Z.max m x)) as [H|H]; [|now right; right].
    rewrite H. destruct (Z.max_spec m x) as [[_ ->]|[_ ->]]; auto.
Qed.

(** On a non-empty list [Math.max] is the largest element. *)
Lemma Math_max_is_maximum values :
  values <> [] ->
  exists m, Math_max values = Finite m
            /\ In m values
            /\ (forall z, In z values -> z <= m).
Proof.
  destruct values as [|x values]; [congruence|]. intros _.
  unfold Math_max. simpl. rewrite fold_max_finite.
  exists (fold_left Z.max values x). split; [reflexivity|].
  destruct (fold_max_bounds values x) as [Hx Hall]. split.
  - destruct (fold_max_attained values x) as [->|H]; [now left | now right].
  - intros z [<-|Hz]; [assumption | now apply Hall].
Qed.

Lemma render_bars_map maxCount stats :
  render_bars maxCount stats
  = (map (fun s => mkBar (escapeHtml (word s))
                         (percentage (count s) maxCount) (count s)) stats,
     map (fun s => (count s, maxCount)) stats).
Proof.
  induction stats as [|s stats IH]; simpl; [reflexivity|].
  now rewrite IH.
Qed.

Lemma fetchStats_nonempty timeframe ok stats :
  stats <> [] ->
  fetchStats timeframe (Responded ok (StatsList stats))
  = mkStatsView ("/stats/word-frequency?timeframe=" ++ timeframe)
      (Chart (map (fun s => mkBar (escapeHtml (word s))
                              (percentage (count s)
                                 (Math_max (map count stats)))
                              (count s)) stats))
      (map (fun s => (count s, Math_max (map count stats))) stats).
Proof.
  destruct stats as [|s stats]; [congruence|]. intros _.
  unfold fetchStats. now rewrite render_bars_map.
Qed.

(** C5. For a non-empty list of entries the table is a chart with one bar
    per entry, in order, labelled with the escaped word, whose width is
    [(count / max) * 100] in double arithmetic, [max] being the largest
    count of the list.  For counts 10 and 5 the widths are 100 and 50.  For
    the empty list the table is the placeholder and nothing is divided. *)
Theorem fetchStats_bar_widths :
  (forall timeframe ok stats,
      stats <> [] ->
      exists m,
        In m (map count stats)
        /\ (forall s, In s stats -> count s <= m)
        /\ frequency_table
             (fetchStats timeframe (Responded ok (StatsList stats)))
           = Chart (map (fun s =>
                           mkBar (escapeHtml (word s))
                                 ((float_of_Z (count s) / float_of_Z m) * 100)
                                 (count s)) stats))
  /\ frequency_table
       (fetchStats "all"
          (Responded true (StatsList [mkStat "a" 10; mkStat "b" 5])))
     = Chart [mkBar "a" 100 10; mkBar "b" 50 5]
  /\ (forall timeframe ok,
         let view := fetchStats timeframe (Responded ok (StatsList [])) in
         frequency_table view
         = TablePlaceholder "Not enough data to generate stats."
         /\ divisions view = []).
Proof.
  split; [|split].
  - intros timeframe ok stats Hne.
    destruct (Math_max_is_maximum (map count stats)) as [m [Hmax [Hin Hle]]].
    { destruct stats; [congruence | discriminate]. }
    exists m. split; [assumption|]. split.
    + intros s Hs. apply Hle. now apply in_map.
    + rewrite (fetchStats_nonempty _ _ _ Hne), Hmax. reflexivity.
  - vm_compute. reflexivity.
  - intros timeframe ok view. split; reflexivity.
Qed.

(** C6 as stated fails: one entry with count 0 is a non-empty result with
    non-negative counts, and its ratio is computed over a maximum of 0. *)
Lemma fetchStats_zero_counts_zero_maximum :
  ~ (forall timeframe ok stats,
        stats <> [] ->
        (forall s, In s stats -> 0 <= count s) ->
        forall d,
          In d (divisions
                  (fetchStats timeframe (Responded ok (StatsList stats)))) ->
          exists m, snd d = Finite m /\ 0 < m).
Proof.
  intros H.
  destruct (H "all" true [mkStat "a" 0]) with (d := (0, Finite 0))
    as [m [Hm Hpos]].
  - discriminate.
  - intros s [<-|[]]. simpl. lia.
  - simpl. now left.
  - simpl in Hm. injection Hm as <-. lia.
Qed.

(** C6, amended. A ratio is computed only for a non-empty result, and its
    denominator is the largest count.  When all counts are non-negative and
    at least one is not zero, that maximum is positive, so no ratio is taken
    over a zero maximum. *)
Theorem fetchStats_divides_by_maximum timeframe outcome d :
  In d (divisions (fetchStats timeframe outcome)) ->
  exists ok stats,
    outcome = Responded ok (StatsList stats)
    /\ stats <> []
    /\ snd d = Math_max (map count stats)
    /\ ((forall s, In s stats -> 0 <= count s) ->
        (exists s, In s stats /\ count s <> 0) ->
        exists m, snd d = Finite m /\ 0 < m).
Proof.
  destruct outcome as [reason|ok [stats|]]; simpl; try contradiction.
  destruct stats as [|s0 stats]; [contradiction|].
  set (all := s0 :: stats).
  change (In d (divisions (fetchStats timeframe
                             (Responded ok (StatsList all)))) -> 
          exists ok' stats',
            Responded ok (StatsList all) = Responded ok' (StatsList stats')
            /\ stats' <> []
            /\ snd d = Math_max (map count stats')
            /\ ((forall s, In s stats' -> 0 <= count s) ->
                (exists s, In s stats' /\ count s <> 0) ->
                exists m, snd d = Finite m /\ 0 < m)).
  assert (Hne : all <> []) by discriminate.
  rewrite (fetchStats_nonempty _ _ _ Hne). cbn [divisions].
  intros Hd. apply in_map_iff in Hd as [s [<- Hs]]. cbn [snd].
  exists ok, all. repeat split; [assumption|].
  intros Hnonneg [s1 [Hs1 Hnz]].
  destruct (Math_max_is_maximum (map count all)) as [m [Hmax [_ Hle]]].
  { subst all. discriminate. }
  exists m. split; [assumption|].
  specialize (Hle (count s1) (in_map count _ _ Hs1)).
  specialize (Hnonneg s1 Hs1). lia.
Qed.

(** The second division of the two-word chart. *)
Lemma fetchStats_divides_ten_by_ten :
  In (5, Finite 10)
     (divisions (fetchStats "all"
        (Responded true (StatsList [mkStat "a" 10; mkStat "b" 5]))))
  /\ exists ok stats,
       Responded true (StatsList [mkStat "a" 10; mkStat "b" 5])
       = Responded ok (StatsList stats)
       /\ stats <> []
       /\ snd (5, Finite 10) = Math_max (map count stats)
       /\ ((forall s, In s stats -> 0 <= count s) ->
           (exists s, In s stats /\ count s <> 0) ->
           exists m, snd (5, Finite 10) = Finite m /\ 0 < m).
Proof.
  assert (H : In (5, Finite 10)
                (divisions (fetchStats "all"
                   (Responded true
                      (StatsList [mkStat "a" 10; mkStat "b" 5]))))).
  { simpl. right. now left. }
  split; [exact H|].
  exact (fetchStats_divides_by_maximum "all" _ _ H).
Defined.

End StatsFacts.

(** ** More on escaping and on the flag icon *)

Module TextFacts.
Import JsString JsStringFacts Escape EscapeFacts Codec CodecFacts Renderer.
Import Special.

Lemma length_append s t :
  String.length (s ++ t) = String.length s + String.length t.
Proof. induction s as [|a s IH]; simpl; [reflexivity | now rewrite IH]. Qed.

(** A character is either kept, or one of the five and replaced by a longer
    text. *)
Lemma entity_of_cases a :
  (entity_of a = String a EmptyString
   /\ forall c, In c special -> Ascii.eqb a c = false)
  \/ (In a special /\ 1 < String.length (entity_of a)).
Proof.
  each_character a;
    first [ left; split; [reflexivity|];
            intros c [<-|[<-|[<-|[<-|[<-|[]]]]]]; reflexivity
          | right; split; [simpl; tauto | simpl; lia] ].
Qed.

Lemma escapeHtml_length s : String.length s <= String.length (escapeHtml s).
Proof.
  induction s as [|a s IH]; [simpl; lia|].
  rewrite escapeHtml_cons, length_append. simpl.
  destruct (entity_of_cases a) as [[-> _]|[_ H]]; simpl; lia.
Qed.

(** X1. [escapeHtml] returns its input unchanged exactly when the input holds
    none of the five characters. *)
Theorem escapeHtml_unchanged_iff s :
  escapeHtml s = s <-> forall c, In c special -> contains c s = false.
Proof.
  induction s as [|a s IH]; [split; reflexivity|].
  rewrite escapeHtml_cons. simpl. split.
  - intros H c Hc.
    destruct (entity_of_cases a) as [[Ha Hne]|[_ Hlen]].
    + rewrite Ha in H. simpl in H. injection H as H.
      rewrite (Hne c Hc). simpl. now apply IH.
    + apply (f_equal String.length) in H.
      rewrite length_append in H. simpl in H.
      pose proof (escapeHtml_length s). lia.
  - intros H.
    destruct (entity_of_cases a) as [[Ha _]|[Hin _]].
    + rewrite Ha. simpl. f_equal. apply IH. intros c Hc.
      specialize (H c Hc). apply orb_false_iff in H. tauto.
    + specialize (H a Hin). now rewrite Ascii.eqb_refl in H.
Qed.

(** X2. Escaping commutes with concatenation, and distinct texts have
    distinct escapes. *)
Theorem escapeHtml_concat_injective :
  (forall s t, escapeHtml (s ++ t) = escapeHtml s ++ escapeHtml t)
  /\ (forall s t, escapeHtml s = escapeHtml t -> s = t).
Proof.
  split; [apply escapeHtml_app|].
  intros s t H. apply (f_equal textContent) in H.
  now rewrite !escapeHtml_single_pass, !textContent_single_pass in H.
Qed.

(** X3. The author and the content of a rendered message are escaped: their
    markup holds no raw special character and shows the original text. *)
Theorem renderMessage_escapes_text msg isTarget :
  let m := renderMessage msg isTarget in
  no_raw_special (author_html m) = true
  /\ textContent (author_html m) = author_name msg
  /\ no_raw_special (content_html m) = true
  /\ textContent (content_html m) = content msg.
Proof.
  simpl. rewrite !escapeHtml_single_pass.
  repeat split;
    first [apply no_raw_special_single_pass | apply textContent_single_pass].
Qed.

(** X4. The icon identifies the flag: the green and the red glyph are shown
    for exactly those two values, and the neutral glyph for exactly the
    values, a missing flag included, that are neither and do not start with
    the pending-reaction prefix. *)
Theorem getFlagIcon_identifies_flag f :
  (getFlagIcon f = "🟢" <-> f = Some "green")
  /\ (getFlagIcon f = "🔴" <-> f = Some "red")
  /\ (getFlagIcon f = "⚪" <->
      forall s, f = Some s ->
                s <> "green" /\ s <> "red"
                /\ startsWith s "pending_react:" = false).
Proof.
  destruct f as [s|]; unfold getFlagIcon.
  2:{ repeat split; try discriminate. }
  destruct (String.eqb_spec s "green") as [->|Hg].
  { split; [|split]; split; try discriminate; try congruence.
    intros H. destruct (H _ eq_refl) as [Habs _]. congruence. }
  destruct (String.eqb_spec s "red") as [->|Hr].
  { split; [|split]; split; try discriminate; try congruence.
    intros H. destruct (H _ eq_refl) as [_ [Habs _]]. congruence. }
  pose proof (pending_react_iff_prefix s) as Hp.
  destruct (pending_react_emoji s) as [emoji|].
  - assert (Hs : startsWith s "pending_react:" = true).
    { apply Hp. discriminate. }
    split; [|split]; split; try discriminate; try congruence.
    intros H. destruct (H _ eq_refl) as [_ [_ Habs]]. congruence.
  - assert (Hs : startsWith s "pending_react:" = false).
    { destruct (startsWith s "pending_react:"); [|reflexivity].
      exfalso. now apply Hp. }
    split; [|split]; split; try discriminate; try congruence.
    intros _ s' [= <-]. auto.
Qed.

(** X5. For a token without a colon the pending icon embeds the token twice,
    verbatim: it is not escaped. *)
Theorem getFlagIcon_embeds_plain_token x :
  contains colon x = false ->
  getFlagIcon (Some ("pending_react:" ++ x))
  = "<span title=" ++ dq ++ "Pending reaction: " ++ x ++ dq
    ++ ">⏳" ++ x ++ "</span>".
Proof.
  intros H. unfold getFlagIcon.
  change ("pending_react:" ++ x =? "green") with false.
  change ("pending_react:" ++ x =? "red") with false.
  now rewrite (pending_react_emoji_plain x H).
Qed.

(** A token made of markup reaches the indicator as markup. *)
Lemma getFlagIcon_embeds_markup_token :
  contains colon "<b>" = false
  /\ getFlagIcon (Some "pending_react:<b>")
     = "<span title=" ++ dq ++ "Pending reaction: <b>" ++ dq
       ++ ">⏳<b></span>".
Proof.
  split; [reflexivity|].
  apply (getFlagIcon_embeds_plain_token "<b>"). reflexivity.
Defined.

End TextFacts.

(** ** Rendering and patching together *)

Module PatchFacts.
Import JsString Codec Dom Renderer Controller Panels.
Import CodecFacts DomFacts ControllerFacts.

(** The classes of a rendered node. *)
Lemma renderMessage_classList msg isTarget :
  classList (element_of (renderMessage msg isTarget))
  = ("message-item"
     :: (if isTarget then ["target-message"] else [])
     ++ (if flag_is (flag msg) "green" then ["flag-green"]
         else if flag_is (flag msg) "red" then ["flag-red"]
         else []))%list.
Proof.
  unfold element_of, renderMessage. cbn [classList class_attr].
  destruct isTarget, (flag_is (flag msg) "green"), (flag_is (flag msg) "red");
    reflexivity.
Qed.

Lemma is_button_value_cases v :
  is_button_value v = true -> v = "green" \/ v = "red" \/ v = "none".
Proof.
  unfold is_button_value. rewrite !orb_true_iff, !String.eqb_eq. tauto.
Qed.







(** What [toggleFlag] does to the nodes is one of two things. *)
Lemma toggleFlag_dom_cases m v o p :
  dom (fst (toggleFlag m v o p)) = dom p
  \/ dom (fst (toggleFlag m v o p))
     = fst (patch_matching ("msg-" ++ m) v (dom p)).
Proof.
  destruct o as [reason|[|] []].
  - now left.
  - right. apply toggleFlag_success_dom.
  - now left.
Qed.


End PatchFacts.

(** ** Edge behaviour and invariants of the flag mutation *)

Module StateFacts.
Import JsString Codec Dom Renderer Controller Panels.
Import CodecFacts DomFacts ControllerFacts PatchFacts.






Lemma filter_filter_negb {A} (f : A -> bool) l :
  filter f (filter (fun x => negb (f x)) l) = [].
Proof.
  induction l as [|x l IH]; [reflexivity|].
  cbn [filter]. destruct (f x) eqn:E; cbn [negb filter]; [assumption|].
  now rewrite E.
Qed.

(** After the callback a node carries at most one state class. *)
Lemma patch_element_one_state v el :
  List.length (state_classes_of (fst (patch_element v el))) <= 1.
Proof.
  assert (Hclear : forall cl,
             filter (fun c => mem c state_classes)
                    (classList_remove state_classes cl) = []).
  { intros cl. apply (filter_filter_negb (fun c => mem c state_classes)). }
  unfold patch_element, state_classes_of.
  destruct (negb (v =? "none")).
  - unfold classList_add.
    destruct (flag_class_token v =? ""); cbn [fst classList];
      [rewrite Hclear; simpl; lia|].
    destruct (has_whitespace (flag_class_token v)); cbn [fst classList];
      [rewrite Hclear; simpl; lia|].
    destruct (mem (flag_class_token v) _); cbn [fst classList].
    + rewrite Hclear. simpl. lia.
    + rewrite filter_app, Hclear. cbn [filter app].
      destruct (mem (flag_class_token v) state_classes); simpl; lia.
  - cbn [fst classList]. rewrite Hclear. simpl. lia.
Qed.

Lemma renderMessage_one_state msg isTarget :
  List.length (state_classes_of (element_of (renderMessage msg isTarget)))
  <= 1.
Proof.
  unfold state_classes_of. rewrite renderMessage_classList.
  destruct isTarget, (flag_is (flag msg) "green"), (flag_is (flag msg) "red");
    simpl; lia.
Qed.

Lemma patch_matching_one_state id v nodes :
  Forall (fun el => List.length (state_classes_of el) <= 1) nodes ->
  Forall (fun el => List.length (state_classes_of el) <= 1)
         (fst (patch_matching id v nodes)).
Proof.
  induction 1 as [|el nodes Hel Hall IH]; simpl; [constructor|].
  destruct (el_id el =? id).
  - pose proof (patch_element_one_state v el) as Hp.
    destruct (patch_element v el) as [el' [e|]]; cbn [fst] in *.
    + constructor; assumption.
    + destruct (patch_matching id v nodes) as [rest' r]. cbn [fst] in *.
      constructor; assumption.
  - destruct (patch_matching id v nodes) as [rest' r]. cbn [fst] in *.
    constructor; assumption.
Qed.

Lemma promptReact_resume_dom o p : dom (promptReact_resume o p) = dom p.
Proof.
  destruct o as [reason|ok [error|[|r rs]|]]; simpl; auto.
  destruct (truthy error); reflexivity.
Qed.

(** What [selectEmoji] does to the nodes is what its [toggleFlag] does. *)
Lemma selectEmoji_dom_cases e o p :
  dom (fst (selectEmoji e o p)) = dom p
  \/ exists m,
       dom (fst (selectEmoji e o p))
       = dom (fst (toggleFlag m ("pending_react:" ++ e) o p)).
Proof.
  unfold selectEmoji.
  destruct (currentMessageIdForReact p) as [m|]; [|now left].
  destruct (truthy m); [|now left].
  right. exists m.
  pose proof (toggleFlag_fulfilled m ("pending_react:" ++ e) o p) as Hf.
  destruct (toggleFlag m ("pending_react:" ++ e) o p) as [p1 c].
  simpl in Hf. subst c. reflexivity.
Qed.

Lemma toggleFlag_one_state m v o p :
  Forall (fun el => List.length (state_classes_of el) <= 1) (dom p) ->
  Forall (fun el => List.length (state_classes_of el) <= 1)
         (dom (fst (toggleFlag m v o p))).
Proof.
  intros H. destruct (toggleFlag_dom_cases m v o p) as [-> | ->];
    [assumption | now apply patch_matching_one_state].
Qed.

Lemma step_one_state p p' :
  step p p' ->
  Forall (fun el => List.length (state_classes_of el) <= 1) (dom p) ->
  Forall (fun el => List.length (state_classes_of el) <= 1) (dom p').
Proof.
  intros Hstep H. destruct Hstep.
  - unfold render_lists. cbn [with_dom dom]. apply Forall_forall.
    intros el Hel. apply in_map_iff in Hel as [[msg t] [<- _]].
    apply renderMessage_one_state.
  - assumption.
  - now rewrite promptReact_resume_dom.
  - unfold promptReact. now rewrite promptReact_resume_dom.
  - assumption.
  - now apply toggleFlag_one_state.
  - destruct (selectEmoji_dom_cases e o p) as [-> | [m ->]];
      [assumption | now apply toggleFlag_one_state].
  - destruct t; assumption.
Qed.

(** X9. However renders, flag mutations with any value and any outcome, and
    modal operations follow one another, no node of the page ever carries
    two of the state classes [flag-green], [flag-red] and
    [flag-pending_react] at once. *)
Theorem reachable_one_state_class p :
  reachable p ->
  Forall (fun el => List.length (state_classes_of el) <= 1) (dom p).
Proof.
  induction 1 as [|p p' _ IH Hstep]; [constructor|].
  now apply (step_one_state p).
Qed.

(** The page with message 42 in both lists, after a pending reaction was set
    and a request for a red flag then failed. *)
Lemma one_state_class_after_two_mutations :
  reachable
    (fst (toggleFlag "42" "red" (Rejected "offline")
            (fst (toggleFlag "42" "pending_react:ok" (Responded true tt)
                    two_panels))))
  /\ Forall (fun el => List.length (state_classes_of el) <= 1)
       (dom (fst (toggleFlag "42" "red" (Rejected "offline")
                    (fst (toggleFlag "42" "pending_react:ok"
                            (Responded true tt) two_panels))))).
Proof.
  assert (H : reachable
    (fst (toggleFlag "42" "red" (Rejected "offline")
            (fst (toggleFlag "42" "pending_react:ok" (Responded true tt)
                    two_panels))))).
  { eapply reachable_step; [|apply step_toggleFlag].
    eapply reachable_step; [|apply step_toggleFlag].
    eapply reachable_step; [apply reachable_initial | apply step_render]. }
  split; [exact H | exact (reachable_one_state_class _ H)].
Defined.

End StateFacts.

(** ** The reaction modal *)

Module ModalFacts.
Import JsString Codec Dom Renderer Controller Panels.
Import CodecFacts DomFacts ControllerFacts.

(** X10. Whatever the backend answers, [promptReact] leaves the modal
    visible and bound to the message, issues the one reactions request, and
    touches neither the message nodes nor the console; candidates are listed
    exactly when the answer is a non-empty list, and they are that list. *)
Theorem promptReact_opens_modal m (o : fetch_outcome reactions_payload) p :
  let p' := promptReact m o p in
  modal_visible p' = true
  /\ currentMessageIdForReact p' = Some m
  /\ requests p' = (requests p ++ [GetReactions m])%list
  /\ dom p' = dom p
  /\ console p' = console p
  /\ (forall rs, emoji_list p' = Chips rs <->
                 rs <> [] /\ exists ok, o = Responded ok (ReactionsList rs)).
Proof.
  destruct o as [reason|ok [error|[|r rs']|]]; simpl;
    try destruct (truthy error); simpl;
    do 5 (split; [reflexivity|]); intros rs; split;
    first [ intros H; discriminate H
          | intros [Hne [ok' H]]; congruence
          | intros [= <-]; split; [discriminate | eauto]
          | intros [_ [ok' [= _ <-]]]; reflexivity ].
Qed.

Lemma reachable_modal_invariant p :
  reachable p ->
  (currentMessageIdForReact p <> None <-> modal_visible p = true).
Proof.
  induction 1 as [|p p' _ IH Hstep].
  - simpl. split; [congruence | discriminate].
  - now apply (step_preserves_modal_invariant p).
Qed.

(** X11. On a page the script can reach, selecting an emoji while the modal
    is not visible does nothing at all: no request, no change. *)
Theorem selectEmoji_without_modal e (o : fetch_outcome unit) p :
  reachable p ->
  modal_visible p = false ->
  selectEmoji e o p = (p, Fulfilled).
Proof.
  intros Hreach Hhidden.
  destruct (reachable_modal_invariant p Hreach) as [Hvis _].
  unfold selectEmoji.
  destruct (currentMessageIdForReact p) as [m|]; [|reflexivity].
  assert (modal_visible p = true) by (apply Hvis; discriminate).
  congruence.
Qed.

(** The two lists rendered, the modal never opened. *)
Lemma selectEmoji_on_two_panels :
  reachable two_panels
  /\ modal_visible two_panels = false
  /\ selectEmoji "ok" (Responded true tt) two_panels
     = (two_panels, Fulfilled).
Proof.
  assert (H : reachable two_panels).
  { eapply reachable_step; [apply reachable_initial | apply step_render]. }
  split; [exact H|]. split; [reflexivity|].
  apply (selectEmoji_without_modal "ok" (Responded true tt) two_panels H).
  reflexivity.
Defined.

Lemma selectEmoji_requests e o p :
  requests (fst (selectEmoji e o p)) = requests p
  \/ exists m,
       currentMessageIdForReact p = Some m
       /\ requests (fst (selectEmoji e o p))
          = (requests p ++ [PutFlag m ("pending_react:" ++ e)])%list.
Proof.
  unfold selectEmoji.
  destruct (currentMessageIdForReact p) as [m|]; [|now left].
  destruct (truthy m); [|now left].
  right. exists m. split; [reflexivity|].
  pose proof (toggleFlag_fulfilled m ("pending_react:" ++ e) o p) as Hf.
  destruct (toggleFlag_frame m ("pending_react:" ++ e) o p) as [Hreq _].
  destruct (toggleFlag m ("pending_react:" ++ e) o p) as [p1 c].
  simpl in *. now subst c.
Qed.

(** X12. [customReact] sends nothing when the dialog is cancelled or the
    answer trims to the empty text; any request it adds is the flag mutation
    for the bound message whose value is [pending_react:] followed by the
    trimmed answer, which is not empty. *)
Theorem customReact_sends_trimmed trim answer (o : fetch_outcome unit) p :
  let r := customReact trim answer o p in
  ((answer = None \/ exists a, answer = Some a /\ trim a = "") ->
   r = (p, Fulfilled))
  /\ (requests (fst r) = requests p
      \/ exists m a,
           answer = Some a /\ trim a <> ""
           /\ currentMessageIdForReact p = Some m
           /\ requests (fst r)
              = (requests p
                 ++ [PutFlag m ("pending_react:" ++ trim a)])%list).
Proof.
  unfold customReact. split.
  - intros [->|[a [-> Ha]]]; [reflexivity|].
    rewrite Ha. now rewrite andb_false_r.
  - destruct answer as [a|]; [|now left].
    destruct (truthy a); cbn [andb]; [|now left].
    destruct (truthy (trim a)) eqn:Ht; [|now left].
    destruct (selectEmoji_requests (trim a) o p) as [H|[m [Hm H]]];
      [now left|].
    right. exists m, a. repeat split; try assumption.
    intros Habs. rewrite Habs in Ht. discriminate.
Qed.

End ModalFacts.

(** ** Search results and context view *)

Module PanelsFacts.
Import JsString Codec Dom Renderer Controller Panels.
Import PatchFacts.





End PanelsFacts.

(** ** Tabs and timeframe filter *)

Module TabsFacts.
Import JsString Tabs.

Lemma handle_keeps_last e st :
  last (stats_fetches st) "" = currentTimeframe st ->
  last (stats_fetches (handle e st)) "" = currentTimeframe (handle e st).
Proof.
  intros H. destruct e as [tab|time|]; simpl.
  - destruct (tab =? "stats"); [apply last_last | assumption].
  - apply last_last.
  - apply last_last.
Qed.

Lemma fold_handle_keeps_last events st :
  last (stats_fetches st) "" = currentTimeframe st ->
  let st' := fold_left (fun s e => handle e s) events st in
  last (stats_fetches st') "" = currentTimeframe st'.
Proof.
  revert st. induction events as [|e events IH]; intros st H; simpl;
    [assumption|].
  apply IH. now apply handle_keeps_last.
Qed.

(** X15. After any sequence of tab, timeframe and refresh clicks, the most
    recent call of [fetchStats] asked for the timeframe that is now
    selected. *)
Theorem last_fetch_is_current_timeframe events :
  last (stats_fetches (run events)) "" = currentTimeframe (run events).
Proof. apply fold_handle_keeps_last. reflexivity. Qed.

Lemma handle_fetch_count e st :
  List.length (stats_fetches (handle e st))
  = List.length (stats_fetches st) + (if refetches e then 1 else 0).
Proof.
  destruct e as [tab|time|]; simpl;
    [destruct (tab =? "stats")|..]; rewrite ?length_app; simpl; lia.
Qed.

Lemma fold_handle_fetch_count events st :
  List.length (stats_fetches (fold_left (fun s e => handle e s) events st))
  = List.length (stats_fetches st) + List.length (filter refetches events).
Proof.
  revert st. induction events as [|e events IH]; intros st; simpl; [lia|].
  rewrite IH, handle_fetch_count. destruct (refetches e); simpl; lia.
Qed.

(** X16. [fetchStats] is called once when the script loads and once more for
    every click on the stats tab, on a timeframe button or on the refresh
    button; clicks on any other tab never call it. *)
Theorem stats_fetch_count events :
  List.length (stats_fetches (run events))
  = 1 + List.length (filter refetches events).
Proof. unfold run. now rewrite fold_handle_fetch_count. Qed.

Lemma handle_controls e st tab :
  (forall t, shown_content st = Some t ->
             active_tab st = Some t
             /\ messages_controls_display st
                = (if t =? "messages" then "flex" else "none")
             /\ stats_controls_display st
                = (if t =? "stats" then "flex" else "none")) ->
  shown_content (handle e st) = Some tab ->
  active_tab (handle e st) = Some tab
  /\ messages_controls_display (handle e st)
     = (if tab =? "messages" then "flex" else "none")
  /\ stats_controls_display (handle e st)
     = (if tab =? "stats" then "flex" else "none").
Proof.
  intros H. destruct e as [t|time|]; simpl.
  - intros [= <-]. auto.
  - apply H.
  - apply H.
Qed.

Lemma fold_handle_controls events st :
  (forall t, shown_content st = Some t ->
             active_tab st = Some t
             /\ messages_controls_display st
                = (if t =? "messages" then "flex" else "none")
             /\ stats_controls_display st
                = (if t =? "stats" then "flex" else "none")) ->
  let st' := fold_left (fun s e => handle e s) events st in
  forall t, shown_content st' = Some t ->
            active_tab st' = Some t
            /\ messages_controls_display st'
               = (if t =? "messages" then "flex" else "none")
            /\ stats_controls_display st'
               = (if t =? "stats" then "flex" else "none").
Proof.
  revert st. induction events as [|e events IH]; intros st H; simpl;
    [assumption|].
  apply IH. intros t. now apply handle_controls.
Qed.

(** X17. After any sequence of clicks, the tab whose content is shown is the
    tab whose button is active, the messages controls are displayed exactly
    when that tab is [messages] and the stats controls exactly when it is
    [stats]; timeframe and refresh clicks never disturb this. *)
Theorem controls_follow_shown_tab events tab :
  shown_content (run events) = Some tab ->
  active_tab (run events) = Some tab
  /\ messages_controls_display (run events)
     = (if tab =? "messages" then "flex" else "none")
  /\ stats_controls_display (run events)
     = (if tab =? "stats" then "flex" else "none").
Proof.
  apply (fold_handle_controls events loaded). intros t H. discriminate H.
Qed.

(** The stats tab opened, then the week selected. *)
Lemma controls_after_stats_then_week :
  shown_content (run [TabClick "stats"; TimeClick "week"]) = Some "stats"
  /\ stats_controls_display (run [TabClick "stats"; TimeClick "week"])
     = "flex".
Proof.
  split; [reflexivity|].
  apply (controls_follow_shown_tab
           [TabClick "stats"; TimeClick "week"] "stats" eq_refl).
Defined.

End TabsFacts.

(** ** Flag values and their history *)

Module HistoryFacts.
Import JsString Codec Dom Renderer Controller Panels.
Import JsStringFacts CodecFacts DomFacts ControllerFacts PatchFacts StateFacts.

Lemma split_at_first_separator sep b x :
  contains sep b = false ->
  split sep (b ++ String sep x) = b :: split sep x.
Proof.
  induction b as [|a b IH]; simpl.
  - now rewrite Ascii.eqb_refl.
  - destruct (Ascii.eqb a sep); simpl; [discriminate|].
    intros H. now rewrite (IH H).
Qed.

(** X18. The class derived from a flag value depends on the text before its
    first colon only: whatever payload follows, it is [flag-] followed by
    that text. *)
Theorem flag_class_token_ignores_payload b x :
  contains colon b = false ->
  flag_class_token (b ++ String colon x) = "flag-" ++ b
  /\ flag_class_token b = "flag-" ++ b.
Proof.
  intros H. unfold flag_class_token.
  now rewrite (split_at_first_separator colon b x H), (split_absent colon b H).
Qed.

(** The value of a custom emoji. *)
Lemma flag_class_token_of_custom_emoji :
  contains colon "pending_react" = false
  /\ flag_class_token "pending_react:party:991" = "flag-pending_react".
Proof.
  split; [reflexivity|].
  apply (flag_class_token_ignores_payload "pending_react" "party:991").
  reflexivity.
Defined.

Lemma classList_remove_absent tokens cl :
  (forall c, In c cl -> ~ In c tokens) -> classList_remove tokens cl = cl.
Proof.
  unfold classList_remove. induction cl as [|c cl IH]; intros H;
    [reflexivity|].
  simpl. destruct (mem c tokens) eqn:E.
  - apply mem_In in E. exfalso. apply (H c); [now left | assumption].
  - simpl. f_equal. apply IH. intros c' Hc'. apply H. now right.
Qed.







End HistoryFacts.

(** ** The script without reactions *)

Module PlainFacts.
Import JsString Codec Dom Renderer Controller Panels Plain.
Import CodecFacts DomFacts ControllerFacts PatchFacts.

Lemma classList_remove_without_pending cl :
  ~ In "flag-pending_react" cl ->
  classList_remove ["flag-green"; "flag-red"] cl
  = classList_remove state_classes cl.
Proof.
  unfold classList_remove. induction cl as [|c cl IH]; intros H;
    [reflexivity|].
  assert (Hc : c <> "flag-pending_react") by (intros ->; apply H; now left).
  assert (Hcl : ~ In "flag-pending_react" cl)
    by (intros Hin; apply H; now right).
  cbn [filter]. rewrite (IH Hcl).
  replace (mem c state_classes) with (mem c ["flag-green"; "flag-red"]);
    [reflexivity|].
  unfold mem, state_classes. cbn [existsb].
  apply String.eqb_neq in Hc. now rewrite Hc.
Qed.

(** X20. For the three values of the flag buttons, and on a node that does
    not carry [flag-pending_react], the script without reactions patches a
    node exactly as the script with reactions does. *)
Theorem patch_plain_agrees v el :
  is_button_value v = true ->
  ~ In "flag-pending_react" (classList el) ->
  patch_plain v el = patch_element v el.
Proof.
  intros Hv Hpending. unfold patch_plain, patch_element.
  rewrite (classList_remove_without_pending _ Hpending).
  destruct (is_button_value_cases v Hv) as [->|[->| ->]]; reflexivity.
Qed.

(** The search-list node of message 42 marked green. *)
Lemma patch_plain_agrees_on_green :
  is_button_value "green" = true
  /\ ~ In "flag-pending_react" ["message-item"]
  /\ patch_plain "green" (mkElement "msg-42" ["message-item"] (Some "⚪"))
     = patch_element "green"
         (mkElement "msg-42" ["message-item"] (Some "⚪")).
Proof.
  assert (H : ~ In "flag-pending_react" ["message-item"]).
  { intros [H|[]]. discriminate H. }
  split; [reflexivity|]. split; [exact H|].
  apply (patch_plain_agrees "green"
           (mkElement "msg-42" ["message-item"] (Some "⚪")) eq_refl H).
Defined.

(** X21. The indicator the script without reactions renders is the icon of
    [getFlagIcon] exactly for the flags that do not start with the
    pending-reaction prefix. *)
Theorem flagIcon_agrees_iff f :
  getFlagIcon f = flagIcon f
  <-> forall s, f = Some s -> startsWith s "pending_react:" = false.
Proof.
  destruct f as [s|]; unfold getFlagIcon, flagIcon, flag_is.
  2:{ split; [intros _ s H; discriminate H | reflexivity]. }
  destruct (String.eqb_spec s "green") as [->|Hg].
  { split; [intros _ s [= <-]; reflexivity | reflexivity]. }
  destruct (String.eqb_spec s "red") as [->|Hr].
  { split; [intros _ s [= <-]; reflexivity | reflexivity]. }
  pose proof (pending_react_iff_prefix s) as Hp.
  destruct (pending_react_emoji s) as [emoji|].
  - split; [intros H; discriminate H|].
    intros H. specialize (H s eq_refl).
    assert (startsWith s "pending_react:" = true)
      by (apply Hp; discriminate).
    congruence.
  - split; [|reflexivity]. intros _ s' [= <-].
    destruct (startsWith s "pending_react:"); [|reflexivity].
    exfalso. now apply Hp.
Qed.

End PlainFacts.
